(** * Cycloidal rotor profile: a verification development for [cycloid_app.py]

    The program evaluates a closed-form parametric curve with NumPy and
    prints a few text exports.  The embedding below follows the source
    function by function.

    Numeric model.  A Python [float] and an element of a NumPy [float64]
    array are modelled by a real number, with exact arithmetic: rounding,
    overflow and the IEEE special values are outside the model.  A Python
    [int] is an integer of [Z], converted with [IZR] where the source mixes
    it with floats.  A one-dimensional array is a list, and a vectorised
    NumPy operation is a [map] (or a pointwise [map2]) over it.  A Python
    exception is the result [None].

    Where rounding decides a comparison of the source, the scalar
    expression is also restated in double precision, on Rocq's primitive
    floats (module [Double]); the statements over the reals are then kept
    to what holds in both readings. *)

From Stdlib Require Import Reals Lra Lia ZArith List String Ascii Bool.
From Stdlib Require Import DecimalString.
From Stdlib Require PrimFloat FloatOps SpecFloat Uint63.
Import ListNotations.

Open Scope R_scope.

(** The source's parameters are called [R], [N], ...; the type of floats
    gets a name of its own so that those names stay available. *)
Abbreviation float := Rdefinitions.R (only parsing).

(** ** Exceptions *)

Definition bind {A B : Type} (m : option A) (k : A -> option B) : option B :=
  match m with
  | Some v => k v
  | None => None
  end.

Notation "x <- m ;; k" := (bind m (fun x => k))
  (at level 61, m at next level, right associativity).

(** Python's [/] on floats: [ZeroDivisionError] on a zero divisor. *)
Definition py_div (x y : float) : option float :=
  if Req_dec_T y 0 then None else Some (x / y).

(** ** NumPy primitives used by the source *)

(** Pointwise combination of two arrays of equal shape. *)
Fixpoint map2 {A B C : Type} (f : A -> B -> C) (l : list A) (m : list B)
  : list C :=
  match l, m with
  | u :: l', v :: m' => f u v :: map2 f l' m'
  | _, _ => []
  end.

(** [np.arctan2 y x]: the angle of the point [(x, y)], in [(-PI, PI]];
    by NumPy's convention it is 0 at the origin. *)
Definition arctan2 (y x : float) : float :=
  if Rlt_dec 0 x then atan (y / x)
  else if Rlt_dec x 0 then
         if Rle_dec 0 y then atan (y / x) + PI else atan (y / x) - PI
  else if Rlt_dec 0 y then PI / 2
  else if Rlt_dec y 0 then - (PI / 2)
  else 0.

(** [np.linspace start stop num endpoint]: [num] evenly spaced samples;
    a negative [num] is a [ValueError].  The last sample is overwritten
    with [stop] when the end point is included. *)
Definition set_last (l : list float) (v : float) : list float :=
  match l with
  | [] => []
  | _ => removelast l ++ [v]
  end.

Definition linspace (start stop : float) (num : Z) (endpoint : bool)
  : option (list float) :=
  if (num <? 0)%Z then None
  else
    let div := if endpoint then (num - 1)%Z else num in
    let delta := stop - start in
    let y := map INR (seq 0 (Z.to_nat num)) in
    let y :=
      if (0 <? div)%Z then
        let step := delta / IZR div in
        if Req_dec_T step 0
        then map (fun j => j / IZR div * delta) y
        else map (fun j => j * step) y
      else map (fun j => j * delta) y in
    let y := map (fun v => v + start) y in
    Some (if endpoint && (1 <? num)%Z then set_last y stop else y).

(** ** Section A of the source: parameters and mathematics *)

Module Params.
Record t : Type := mk {
  R : float;
  Rr : float;
  E : float;
  N : Z;
  out_pin_circle_R : float;
  out_pin_count : Z;
  out_pin_diam : float;
  hole_clearance : float;
  dual_disc : bool;
  disc2_phase_deg : float;
  samples : Z;
  eps : float
}.
End Params.

(** [cycloid_profile_xy t R Rr E N phase_rad].  The division
    [R / (E * N)] is a division of Python scalars and raises on zero; all
    other operations are NumPy array operations. *)
Definition cycloid_profile_xy (t : list float) (R Rr E : float) (N : Z)
  (phase_rad : float) : option (list float * list float) :=
  let tt := map (fun u => u + phase_rad) t in
  let a := map (fun u => IZR (1 - N) * u) tt in
  q <- py_div R (E * IZR N) ;;
  let denom := map (fun c => q - c) (map cos a) in
  let psi := map2 arctan2 (map sin a) denom in
  let x :=
    map2 Rminus
      (map2 Rminus (map (fun c => R * c) (map cos tt))
                   (map (fun c => Rr * c) (map cos (map2 Rplus tt psi))))
      (map (fun c => E * c) (map cos (map (fun u => IZR N * u) tt))) in
  let y :=
    map2 Rplus
      (map2 Rplus (map (fun s => - R * s) (map sin tt))
                  (map (fun s => Rr * s) (map sin (map2 Rplus tt psi))))
      (map (fun s => E * s) (map sin (map (fun u => IZR N * u) tt))) in
  Some (x, y).

(** [roller_centres R N]: the rows of the [N x 2] array. *)
Definition roller_centres (R : float) (N : Z) : option (list (float * float)) :=
  ang <- linspace 0 (2 * PI) N false ;;
  Some (combine (map (fun c => R * c) (map cos ang))
                (map (fun s => R * s) (map sin ang))).

Definition output_hole_centres (out_pin_circle_R : float) (out_pin_count : Z)
  : option (list (float * float)) :=
  ang <- linspace 0 (2 * PI) out_pin_count false ;;
  Some (combine (map (fun c => out_pin_circle_R * c) (map cos ang))
                (map (fun s => out_pin_circle_R * s) (map sin ang))).

(** ** Section B of the source: exporters *)

(** Python's formatting of an [int] in an f-string: decimal digits, with a
    leading minus sign for a negative number. *)
Definition int_str (n : Z) : string :=
  DecimalString.NilZero.string_of_int (Z.to_int n).

Definition newline : string := String (ascii_of_nat 10) EmptyString.

(** [math.radians]. *)
Definition radians (deg : float) : float := deg * (PI / 180).

(** The recommended parameter range [(t0, t1)] of the exporter. *)
Definition t_range (p : Params.t) : float * float :=
  let t0 := 0 in
  let t1 := 2 * PI - Params.eps p in
  (t0, t1).

Section Exporters.

(** Python's formatting of a [float] in an f-string (its shortest
    round-trip decimal form) is a library function on binary floats; the
    exporters are parametrised by it. *)
Variable float_str : float -> string.

Definition psi_text (N : Z) : string :=
  "atan( sin((1-" ++ int_str N ++ ")*t) / ((R/(E*" ++ int_str N
    ++ ")) - cos((1-" ++ int_str N ++ ")*t)) )".

Definition x_eq (N : Z) : string :=
  "X = (R*cos(t)) - (Rr*cos(t + " ++ psi_text N ++ ")) - (E*cos("
    ++ int_str N ++ "*t))".

Definition y_eq (N : Z) : string :=
  "Y = (-R*sin(t)) + (Rr*sin(t + " ++ psi_text N ++ ")) + (E*sin("
    ++ int_str N ++ "*t))".

Definition range_line (t0 t1 : float) : string :=
  "Recommended t range: " ++ float_str t0 ++ " to " ++ float_str t1
    ++ " (avoid exactly 2*pi)".

(** The list [lines] built by [solidworks_equations_text]. *)
Definition solidworks_equations_lines (p : Params.t) : list string :=
  let N := Params.N p in
  let '(t0, t1) := t_range p in
  let lines :=
    [ "SolidWorks Equation Driven Curve (Parametric)";
      "Units: mm for R, Rr, E. Parameter t is radians.";
      "";
      "Define these variables in SolidWorks Equations:";
      "R  = " ++ float_str (Params.R p);
      "Rr = " ++ float_str (Params.Rr p);
      "E  = " ++ float_str (Params.E p);
      "N  = " ++ int_str (Params.N p);
      "";
      "Paste into the Equation Driven Curve dialog:";
      x_eq N;
      y_eq N;
      "";
      range_line t0 t1 ]%string in
  if Params.dual_disc p then
    let phase := radians (Params.disc2_phase_deg p) in
    lines ++
    [ "";
      "Optional: Disc 2 (phase shifted)";
      "Use t2 = t + " ++ float_str phase ++ "  (or add " ++ float_str phase
        ++ " everywhere t appears)" ]%string
  else lines.

Definition solidworks_equations_text (p : Params.t) : string :=
  String.concat newline (solidworks_equations_lines p).

End Exporters.

(** ** Section C of the source: the computation behind the page *)

(** The sanity-check block: the list [warnings] it builds.  [p.R / p.N]
    divides Python scalars. *)
Definition warn_E_positive : string := "E must be > 0.".
Definition warn_E_large : string :=
  "E is larger than R/N. This often causes ugly/self-intersecting profiles. Not always invalid, but check fit.".
Definition warn_R_small : string :=
  "R should usually be larger than Rr (roller circle radius vs roller radius).".

Definition warnings (p : Params.t) : option (list string) :=
  let w := [] in
  let w := if Rle_dec (Params.E p) 0 then w ++ [warn_E_positive] else w in
  q <- py_div (Params.R p) (IZR (Params.N p)) ;;
  let w := if Rlt_dec q (Params.E p) then w ++ [warn_E_large] else w in
  let w :=
    if Rle_dec (Params.R p) (Params.Rr p) then w ++ [warn_R_small] else w in
  Some w.

(** The parameter sweep [t] and the first disc's points [(x1, y1)]. *)
Definition sweep (p : Params.t) : option (list float) :=
  linspace 0 (2 * PI - Params.eps p) (Params.samples p) true.

Definition disc1 (p : Params.t) : option (list float * list float) :=
  t <- sweep p ;;
  cycloid_profile_xy t (Params.R p) (Params.Rr p) (Params.E p) (Params.N p) 0.

(** ** The rest of the source *)

Section Csv.

(** Python's fixed-point formatting [{v:.6f}] of a float is a library
    function on binary floats; [csv_points] is parametrised by it. *)
Variable fmt6 : float -> string.

Definition csv_row (xi yi : float) : string :=
  (fmt6 xi ++ "," ++ fmt6 yi)%string.

(** The list [out] built by the loop of [csv_points] over [zip(x, y)]. *)
Definition csv_lines (x y : list float) : list string :=
  fold_left (fun out xy => out ++ [csv_row (fst xy) (snd xy)])
            (combine x y) ["x_mm,y_mm"%string].

Definition csv_points (x y : list float) : string :=
  String.concat newline (csv_lines x y).

End Csv.

(** The two discs of the page: [(x1, y1)], and [(x2, y2)] or [None]. *)
Definition phase2 (p : Params.t) : float :=
  radians (Params.disc2_phase_deg p).

Definition profiles (p : Params.t)
  : option ((list float * list float) * option (list float * list float)) :=
  t <- sweep p ;;
  xy1 <- cycloid_profile_xy t (Params.R p) (Params.Rr p) (Params.E p)
           (Params.N p) 0 ;;
  if Params.dual_disc p then
    xy2 <- cycloid_profile_xy t (Params.R p) (Params.Rr p) (Params.E p)
             (Params.N p) (phase2 p) ;;
    Some (xy1, Some xy2)
  else Some (xy1, None).

(** The circles drawn around the roller centres and the output-hole
    centres: for a centre [(cx, cy)] the arrays [cx + r cos th] and
    [cy + r sin th]. *)
Definition outline (th : list float) (r : float) (c : float * float)
  : list float * list float :=
  (map (fun v => fst c + v) (map (fun v => r * v) (map cos th)),
   map (fun v => snd c + v) (map (fun v => r * v) (map sin th))).

Definition hole_R (p : Params.t) : float :=
  (Params.out_pin_diam p + Params.hole_clearance p) / 2.

Definition outlines (p : Params.t)
  : option (list (list float * list float)
            * list (list float * list float)) :=
  centres <- roller_centres (Params.R p) (Params.N p) ;;
  th <- linspace 0 (2 * PI) 120 true ;;
  let rollers := map (outline th (Params.Rr p)) centres in
  out_centres <- output_hole_centres (Params.out_pin_circle_R p)
                   (Params.out_pin_count p) ;;
  let holes := map (outline th (hole_R p)) out_centres in
  Some (rollers, holes).

(** ** Python scalars in double precision *)

(** Python's arithmetic on [float] scalars is IEEE 754 binary64 arithmetic,
    which the primitive floats compute.  The scalar expressions of the
    source are restated on them for small non-negative [int] operands,
    whose conversion to a float is exact. *)
Module Double.
Import PrimFloat.

Definition of_int (N : Z) : PrimFloat.float := of_uint63 (Uint63.of_Z N).

(** [R / (E * N)] of [cycloid_profile_xy]. *)
Definition quotient (R E : PrimFloat.float) (N : Z) : PrimFloat.float :=
  (R / (E * of_int N))%float.

(** An element of [denom], [(R / (E * N)) - np.cos(a)], given the value
    [cos_a] that the cosine takes there. *)
Definition denom (R E : PrimFloat.float) (N : Z) (cos_a : PrimFloat.float)
  : PrimFloat.float :=
  (quotient R E N - cos_a)%float.

(** The test [p.E > (p.R / p.N)] of the sanity checks. *)
Definition E_is_larger (R E : PrimFloat.float) (N : Z) : bool :=
  (R / of_int N <? E)%float.

(** [math.pi], and [t1 = (2.0 * math.pi) - p.eps] of the exporter. *)
Definition pi : PrimFloat.float := 0x1.921fb54442d18p+1%float.

Definition t1 (eps : PrimFloat.float) : PrimFloat.float :=
  (2 * pi - eps)%float.

(** The doubles that Python reads from [1.1], [0.22] and [1e-6], and the
    power of two 2^-56. *)
Definition d1_1 : PrimFloat.float := 0x1.199999999999ap+0%float.
Definition d0_22 : PrimFloat.float := 0x1.c28f5c28f5c29p-3%float.
Definition d1e_6 : PrimFloat.float := 0x1.0c6f7a0b5ed8dp-20%float.
Definition two_m56 : PrimFloat.float := 0x1p-56%float.

End Double.

(** ** The specification's closed form *)

(** The point of the curve as the specification writes it, for one
    parameter value [t]. *)
Definition closed_form_point (R Rr E : float) (N : Z) (phaseOffset t : float)
  : float * float :=
  let tt := t + phaseOffset in
  let a := (1 - IZR N) * tt in
  let denom := R / (E * IZR N) - cos a in
  let psi := arctan2 (sin a) denom in
  (R * cos tt - Rr * cos (tt + psi) - E * cos (IZR N * tt),
   - R * sin tt + Rr * sin (tt + psi) + E * sin (IZR N * tt)).

(** ** The evaluator, one sample at a time *)

(** The elements of the arrays [x] and [y] of [cycloid_profile_xy] at the
    parameter value [u], given the quotient [q] of the scalar division. *)
Definition sample_denom (N : Z) (phase_rad q u : float) : float :=
  q - cos (IZR (1 - N) * (u + phase_rad)).

Definition sample_psi (N : Z) (phase_rad q u : float) : float :=
  arctan2 (sin (IZR (1 - N) * (u + phase_rad))) (sample_denom N phase_rad q u).

Definition sample_x (R Rr E : float) (N : Z) (phase_rad q u : float) : float :=
  R * cos (u + phase_rad)
  - Rr * cos (u + phase_rad + sample_psi N phase_rad q u)
  - E * cos (IZR N * (u + phase_rad)).

Definition sample_y (R Rr E : float) (N : Z) (phase_rad q u : float) : float :=
  - R * sin (u + phase_rad)
  + Rr * sin (u + phase_rad + sample_psi N phase_rad q u)
  + E * sin (IZR N * (u + phase_rad)).

(** ** Auxiliary notions of the statements *)

(** A warning is triggered by the pair [(R, Rr)] when every run of the
    checker with that pair reports it, whatever the other parameters. *)
Definition triggered_by_R_Rr (R Rr : float) (w : string) : Prop :=
  forall p ws,
    Params.R p = R -> Params.Rr p = Rr -> warnings p = Some ws -> In w ws.

(** The sum of the elements of an array. *)
Definition sum_list (l : list float) : float := fold_right Rplus 0 l.

(** The page's default parameters, with a zero epsilon. *)
Definition zero_eps_params : Params.t :=
  Params.mk 20 3 1.1 10 10 4 8 0.2 false 180 1200 0.

(** * Proofs *)

Ltac decide_R :=
  repeat match goal with
  | |- context [Rle_dec ?a ?b] =>
      destruct (Rle_dec a b); [try (exfalso; lra) | try (exfalso; lra)]
  | |- context [Rlt_dec ?a ?b] =>
      destruct (Rlt_dec a b); [try (exfalso; lra) | try (exfalso; lra)]
  end.

(** ** Arrays *)

Lemma map2_map_map {A B C D : Type} (f : B -> C -> D) (g : A -> B)
  (h : A -> C) (l : list A) :
  map2 f (map g l) (map h l) = map (fun u => f (g u) (h u)) l.
Proof.
  induction l as [|u l IH]; simpl; [reflexivity|].
  now rewrite IH.
Qed.

(** ** The evaluator's arrays *)

Lemma cycloid_profile_xy_samples t R Rr E N phase_rad :
  cycloid_profile_xy t R Rr E N phase_rad =
  q <- py_div R (E * IZR N) ;;
  Some (map (sample_x R Rr E N phase_rad q) t,
        map (sample_y R Rr E N phase_rad q) t).
Proof.
  unfold cycloid_profile_xy.
  destruct (py_div R (E * IZR N)) as [q|]; simpl; [|reflexivity].
  repeat rewrite map_map.
  rewrite map2_map_map.
  rewrite map2_map_map.
  repeat rewrite map_map.
  repeat rewrite map2_map_map.
  reflexivity.
Qed.

Lemma py_div_some x y : y <> 0 -> py_div x y = Some (x / y).
Proof.
  intros Hy. unfold py_div. destruct (Req_dec_T y 0); [contradiction|reflexivity].
Qed.

Lemma py_div_none x : py_div x 0 = None.
Proof.
  unfold py_div. destruct (Req_dec_T 0 0); [reflexivity|congruence].
Qed.

(** ** The curve evaluator *)

Lemma sample_closed_form R Rr E N phase_rad u :
  (sample_x R Rr E N phase_rad (R / (E * IZR N)) u,
   sample_y R Rr E N phase_rad (R / (E * IZR N)) u)
  = closed_form_point R Rr E N phase_rad u.
Proof.
  unfold sample_x, sample_y, sample_psi, sample_denom, closed_form_point.
  rewrite minus_IZR. reflexivity.
Qed.

(** C1.  When [E * N] is not zero, the curve evaluator returns, for every
    parameter value of the array [t], exactly the point of the closed form
    (tt = t + phaseOffset, a = (1 - N) tt, denom = R / (E N) - cos a,
    psi = atan2 (sin a) denom, and the two coordinate formulas), the angle
    psi being the two-argument inverse tangent. *)
Theorem cycloid_profile_xy_closed_form
  (t : list float) (R Rr E : float) (N : Z) (phaseOffset : float) :
  E * IZR N <> 0 ->
  cycloid_profile_xy t R Rr E N phaseOffset =
  Some (map (fun u => fst (closed_form_point R Rr E N phaseOffset u)) t,
        map (fun u => snd (closed_form_point R Rr E N phaseOffset u)) t).
Proof.
  intros HEN.
  rewrite cycloid_profile_xy_samples, (py_div_some _ _ HEN).
  unfold bind.
  do 2 f_equal; apply map_ext; intros u;
    rewrite <- sample_closed_form; reflexivity.
Qed.

Lemma cycloid_profile_xy_closed_form_witness :
  1 * IZR 10 <> 0 /\
  cycloid_profile_xy [0; 1] 20 3 1 10 0 =
  Some (map (fun u => fst (closed_form_point 20 3 1 10 0 u)) [0; 1],
        map (fun u => snd (closed_form_point 20 3 1 10 0 u)) [0; 1]).
Proof.
  split; [lra | apply cycloid_profile_xy_closed_form; lra].
Defined.

(** The two-argument form is not the one-argument form of the quotient:
    on the negative half of the horizontal axis they differ by [PI]. *)
Lemma arctan2_is_not_atan_of_quotient : arctan2 0 (-1) <> atan (0 / -1).
Proof.
  unfold arctan2.
  destruct (Rlt_dec 0 (-1)) as [H|_]; [lra|].
  destruct (Rlt_dec (-1) 0) as [_|H]; [|lra].
  destruct (Rle_dec 0 0) as [_|H]; [|lra].
  pose proof PI_RGT_0. lra.
Qed.

(** A zero product [E * N] is the one way the evaluator fails. *)
Lemma cycloid_profile_xy_zero_division t R Rr E N phase_rad :
  E * IZR N = 0 -> cycloid_profile_xy t R Rr E N phase_rad = None.
Proof.
  intros H. rewrite cycloid_profile_xy_samples, H, py_div_none. reflexivity.
Qed.

(** Nothing is filtered: away from that failure there is one point for
    each parameter value. *)
Lemma cycloid_profile_xy_total t R Rr E N phase_rad :
  E * IZR N <> 0 ->
  exists x y, cycloid_profile_xy t R Rr E N phase_rad = Some (x, y)
              /\ List.length x = List.length t
              /\ List.length y = List.length t.
Proof.
  intros H. rewrite cycloid_profile_xy_samples, (py_div_some _ _ H).
  unfold bind. do 2 eexists. split; [reflexivity|].
  now rewrite !length_map.
Qed.

(** C4.  Phase-shift equivalence: evaluating at the parameter values [t]
    with phase offset [phi] gives the same arrays as evaluating at the
    values [t + phi] with phase offset 0 (same failure, too). *)
Theorem cycloid_profile_xy_phase_shift
  (t : list float) (R Rr E : float) (N : Z) (phi : float) :
  cycloid_profile_xy t R Rr E N phi =
  cycloid_profile_xy (map (fun u => u + phi) t) R Rr E N 0.
Proof.
  rewrite !cycloid_profile_xy_samples.
  destruct (py_div R (E * IZR N)) as [q|]; [|reflexivity].
  unfold bind. rewrite !map_map.
  do 2 f_equal; apply map_ext; intros u;
    unfold sample_x, sample_y, sample_psi, sample_denom;
    now rewrite Rplus_0_r.
Qed.

(** ** Periodicity *)

Lemma cos_period_Z (x : float) (k : Z) : cos (x + 2 * IZR k * PI) = cos x.
Proof.
  destruct (Z_le_gt_dec 0 k) as [Hk|Hk].
  - rewrite <- (Z2Nat.id k Hk), <- INR_IZR_INZ. apply cos_period.
  - rewrite <- (cos_period (x + 2 * IZR k * PI) (Z.to_nat (- k))).
    rewrite INR_IZR_INZ, Z2Nat.id by lia.
    rewrite opp_IZR. f_equal. ring.
Qed.

Lemma sin_period_Z (x : float) (k : Z) : sin (x + 2 * IZR k * PI) = sin x.
Proof.
  destruct (Z_le_gt_dec 0 k) as [Hk|Hk].
  - rewrite <- (Z2Nat.id k Hk), <- INR_IZR_INZ. apply sin_period.
  - rewrite <- (sin_period (x + 2 * IZR k * PI) (Z.to_nat (- k))).
    rewrite INR_IZR_INZ, Z2Nat.id by lia.
    rewrite opp_IZR. f_equal. ring.
Qed.

Lemma cos_turn (x : float) : cos (x + 2 * PI) = cos x.
Proof.
  rewrite <- (cos_period_Z x 1). f_equal. ring.
Qed.

Lemma sin_turn (x : float) : sin (x + 2 * PI) = sin x.
Proof.
  rewrite <- (sin_period_Z x 1). f_equal. ring.
Qed.

Lemma sample_psi_turn N phase_rad q u :
  sample_psi N phase_rad q (u + 2 * PI) = sample_psi N phase_rad q u.
Proof.
  unfold sample_psi, sample_denom.
  replace (IZR (1 - N) * (u + 2 * PI + phase_rad))
    with (IZR (1 - N) * (u + phase_rad) + 2 * IZR (1 - N) * PI) by ring.
  now rewrite cos_period_Z, sin_period_Z.
Qed.

Lemma sample_x_turn R Rr E N phase_rad q u :
  sample_x R Rr E N phase_rad q (u + 2 * PI) = sample_x R Rr E N phase_rad q u.
Proof.
  unfold sample_x. rewrite sample_psi_turn.
  replace (IZR N * (u + 2 * PI + phase_rad))
    with (IZR N * (u + phase_rad) + 2 * IZR N * PI) by ring.
  replace (u + 2 * PI + phase_rad + sample_psi N phase_rad q u)
    with (u + phase_rad + sample_psi N phase_rad q u + 2 * PI) by ring.
  replace (u + 2 * PI + phase_rad) with (u + phase_rad + 2 * PI) by ring.
  now rewrite cos_period_Z, !cos_turn.
Qed.

Lemma sample_y_turn R Rr E N phase_rad q u :
  sample_y R Rr E N phase_rad q (u + 2 * PI) = sample_y R Rr E N phase_rad q u.
Proof.
  unfold sample_y. rewrite sample_psi_turn.
  replace (IZR N * (u + 2 * PI + phase_rad))
    with (IZR N * (u + phase_rad) + 2 * IZR N * PI) by ring.
  replace (u + 2 * PI + phase_rad + sample_psi N phase_rad q u)
    with (u + phase_rad + sample_psi N phase_rad q u + 2 * PI) by ring.
  replace (u + 2 * PI + phase_rad) with (u + phase_rad + 2 * PI) by ring.
  now rewrite sin_period_Z, !sin_turn.
Qed.


(** ** The inverse tangent *)

Lemma arctan2_pos (y x : float) : 0 < x -> arctan2 y x = atan (y / x).
Proof.
  intros Hx. unfold arctan2. destruct (Rlt_dec 0 x); [reflexivity|contradiction].
Qed.

(** [arctan2] is odd in its first argument, except on the negative half of
    the horizontal axis, where it is [PI] on both sides. *)
Lemma arctan2_opp (s d : float) :
  arctan2 (- s) d = - arctan2 s d
  \/ (arctan2 (- s) d = PI /\ arctan2 s d = PI).
Proof.
  unfold arctan2.
  replace (- s / d) with (- (s / d)) by (unfold Rdiv; ring).
  rewrite atan_opp.
  destruct (Rlt_dec 0 d) as [Hd|Hd]; [now left|].
  destruct (Rlt_dec d 0) as [Hd'|Hd'].
  - destruct (Rle_dec 0 (- s)) as [Hs|Hs], (Rle_dec 0 s) as [Hs'|Hs'].
    + right. assert (s = 0) as -> by lra.
      unfold Rdiv. rewrite Rmult_0_l, atan_0. lra.
    + left. ring.
    + left. ring.
    + lra.
  - destruct (Rlt_dec 0 (- s)) as [Hs|Hs], (Rlt_dec 0 s) as [Hs'|Hs'];
      try lra.
    + destruct (Rlt_dec s 0); [left; ring | lra].
    + destruct (Rlt_dec (- s) 0); [now left | lra].
    + destruct (Rlt_dec (- s) 0), (Rlt_dec s 0); lra.
Qed.

Lemma cos_mirror (u s d : float) :
  cos (- u + arctan2 (- s) d) = cos (u + arctan2 s d).
Proof.
  destruct (arctan2_opp s d) as [-> | [-> ->]].
  - rewrite <- (cos_neg (u + arctan2 s d)). f_equal. ring.
  - now rewrite !neg_cos, cos_neg.
Qed.

Lemma sin_mirror (u s d : float) :
  sin (- u + arctan2 (- s) d) = - sin (u + arctan2 s d).
Proof.
  destruct (arctan2_opp s d) as [-> | [-> ->]].
  - rewrite <- (sin_neg (u + arctan2 s d)). f_equal. ring.
  - rewrite !neg_sin, sin_neg. ring.
Qed.

(** ** Mirror symmetry *)

Lemma sample_mirror R Rr E N q u :
  sample_x R Rr E N 0 q (- u) = sample_x R Rr E N 0 q u
  /\ sample_y R Rr E N 0 q (- u) = - sample_y R Rr E N 0 q u.
Proof.
  unfold sample_x, sample_y, sample_psi, sample_denom.
  rewrite !Rplus_0_r.
  replace (IZR (1 - N) * - u) with (- (IZR (1 - N) * u)) by ring.
  replace (IZR N * - u) with (- (IZR N * u)) by ring.
  rewrite !cos_neg, !sin_neg, cos_mirror, sin_mirror.
  split; ring.
Qed.

(** C10.  With phase offset 0 the profile is mirror-symmetric about the
    x-axis: evaluating at the parameter values [- t] gives the same [x] and
    the opposite [y] as evaluating at [t]. *)
Theorem cycloid_profile_xy_mirror
  (t : list float) (R Rr E : float) (N : Z) :
  cycloid_profile_xy (map Ropp t) R Rr E N 0 =
  option_map (fun xy => (fst xy, map Ropp (snd xy)))
             (cycloid_profile_xy t R Rr E N 0).
Proof.
  rewrite !cycloid_profile_xy_samples.
  destruct (py_div R (E * IZR N)) as [q|]; [|reflexivity].
  unfold bind, option_map, fst, snd. rewrite !map_map.
  do 2 f_equal; apply map_ext; intros u; apply sample_mirror.
Qed.

(** ** The advisory bound on the eccentricity *)

Lemma arctan2_right_half (y x : float) :
  0 <= x -> - (PI / 2) <= arctan2 y x <= PI / 2.
Proof.
  intros Hx. pose proof PI2_RGT_0. unfold arctan2.
  destruct (Rlt_dec 0 x).
  - pose proof (atan_bound (y / x)). lra.
  - destruct (Rlt_dec x 0); [lra|].
    destruct (Rlt_dec 0 y); [lra|]. destruct (Rlt_dec y 0); lra.
Qed.

Lemma quotient_at_least_one (R E : float) (N : Z) :
  0 < E -> (1 <= N)%Z -> E * IZR N <= R -> 1 <= R / (E * IZR N).
Proof.
  intros HE HN HEN.
  assert (HN' : 1 <= IZR N) by now apply IZR_le.
  assert (Hprod : 0 < E * IZR N) by (apply Rmult_lt_0_compat; lra).
  apply (Rmult_le_reg_r (E * IZR N)); [assumption|].
  unfold Rdiv. rewrite Rmult_assoc, Rinv_l; lra.
Qed.

(** Strict positivity does not survive double precision.  For the doubles
    R = 1.1 and E = 0.22 and N = 5, E * N is below R exactly (their
    mantissas and exponents are given), the test E > R / N is false, and
    yet R / (E * N) rounds to 1, so that [denom] is 0 where the cosine is 1
    (at the parameter value 0 with phase offset 0). *)
Lemma denom_zero_below_threshold_in_doubles :
  FloatOps.Prim2SF Double.d1_1
  = SpecFloat.S754_finite false 4953959590107546 (-52)
  /\ FloatOps.Prim2SF Double.d0_22
     = SpecFloat.S754_finite false 7926335344172073 (-55)
  /\ (7926335344172073 * 5 < 4953959590107546 * 2 ^ 3)%Z
  /\ Double.E_is_larger Double.d1_1 Double.d0_22 5 = false
  /\ Double.quotient Double.d1_1 Double.d0_22 5 = PrimFloat.one
  /\ Double.denom Double.d1_1 Double.d0_22 5 PrimFloat.one = PrimFloat.zero.
Proof.
  repeat split; try reflexivity.
Qed.

(** C9, up to the bound.  When [R > 0], [E > 0], [N >= 1] and
    [E * N <= R] (that is, E <= R / N), then for every parameter value and
    phase offset the scalar division succeeds, [denom] is never negative
    and [psi] lies between [- PI / 2] and [PI / 2], bounds included; when
    [E * N = R], [denom] is exactly 0 at the parameter value 0 with phase
    offset 0. *)
Theorem denom_nonnegative_up_to_R_over_N
  (R E : float) (N : Z) (phaseOffset t : float) :
  0 < R -> 0 < E -> (1 <= N)%Z -> E * IZR N <= R ->
  exists q, py_div R (E * IZR N) = Some q
            /\ 0 <= sample_denom N phaseOffset q t
            /\ - (PI / 2) <= sample_psi N phaseOffset q t <= PI / 2
            /\ (E * IZR N = R -> sample_denom N 0 q 0 = 0).
Proof.
  intros HR HE HN HEN.
  pose proof (quotient_at_least_one R E N HE HN HEN) as Hq.
  assert (HN' : 1 <= IZR N) by now apply IZR_le.
  assert (Hprod : 0 < E * IZR N) by (apply Rmult_lt_0_compat; lra).
  exists (R / (E * IZR N)). split; [apply py_div_some; lra|].
  assert (Hd : 0 <= sample_denom N phaseOffset (R / (E * IZR N)) t).
  { unfold sample_denom.
    pose proof (COS_bound (IZR (1 - N) * (t + phaseOffset))). lra. }
  split; [assumption|].
  split; [now apply arctan2_right_half|].
  intros Heq. unfold sample_denom.
  rewrite Heq, Rplus_0_r, Rmult_0_r, cos_0. field. lra.
Qed.

Lemma denom_nonnegative_up_to_R_over_N_witness :
  0 < 20 /\ 0 < 2 /\ (1 <= 10)%Z /\ 2 * IZR 10 <= 20 /\
  exists q, py_div 20 (2 * IZR 10) = Some q
            /\ 0 <= sample_denom 10 0 q 1
            /\ - (PI / 2) <= sample_psi 10 0 q 1 <= PI / 2
            /\ (2 * IZR 10 = 20 -> sample_denom 10 0 q 0 = 0).
Proof.
  repeat (split; [lra || lia|]).
  apply denom_nonnegative_up_to_R_over_N; lra || lia.
Defined.

(** ** Evenly spaced samples *)

Lemma set_last_app (l : list float) (x v : float) :
  set_last (l ++ [x]) v = l ++ [v].
Proof.
  destruct l as [|a l]; [reflexivity|].
  change (set_last ((a :: l) ++ [x]) v)
    with (removelast ((a :: l) ++ [x]) ++ [v]).
  now rewrite removelast_last.
Qed.

Lemma set_last_map_seq (f : nat -> float) (n : nat) (v : float) :
  f n = v -> set_last (map f (seq 0 (S n))) v = map f (seq 0 (S n)).
Proof.
  intros Hv. rewrite seq_S, map_app. simpl map at 2 4.
  now rewrite set_last_app, Hv.
Qed.

Lemma linspace_steps (start delta : float) (div : Z) (n : nat) :
  map (fun v => v + start)
    (if Req_dec_T (delta / IZR div) 0
     then map (fun j => j / IZR div * delta) (map INR (seq 0 n))
     else map (fun j => j * (delta / IZR div)) (map INR (seq 0 n)))
  = map (fun j => INR j * (delta / IZR div) + start) (seq 0 n).
Proof.
  destruct (Req_dec_T (delta / IZR div) 0); rewrite !map_map;
    apply map_ext; intros j; unfold Rdiv; ring.
Qed.

(** Without the end point: sample [j] is [start + j * (stop - start) / num]. *)
Lemma linspace_open (start stop : float) (num : Z) :
  (1 <= num)%Z ->
  linspace start stop num false =
  Some (map (fun j => INR j * ((stop - start) / IZR num) + start)
            (seq 0 (Z.to_nat num))).
Proof.
  intros Hnum. unfold linspace.
  destruct (Z.ltb_spec num 0); [lia|].
  destruct (Z.ltb_spec 0 num); [|lia].
  cbv zeta. now rewrite linspace_steps.
Qed.

(** With the end point: sample [j] is
    [start + j * (stop - start) / (num - 1)], the last one being [stop]. *)
Lemma linspace_closed (start stop : float) (num : Z) :
  (1 < num)%Z ->
  linspace start stop num true =
  Some (map (fun j => INR j * ((stop - start) / IZR (num - 1)) + start)
            (seq 0 (Z.to_nat num))).
Proof.
  intros Hnum. unfold linspace.
  destruct (Z.ltb_spec num 0); [lia|].
  destruct (Z.ltb_spec 0 (num - 1)); [|lia].
  destruct (Z.ltb_spec 1 num); [|lia].
  cbv zeta. rewrite linspace_steps. simpl andb. cbv iota.
  f_equal.
  replace (Z.to_nat num) with (S (Z.to_nat (num - 1))) by lia.
  apply set_last_map_seq.
  rewrite INR_IZR_INZ, Z2Nat.id by lia.
  assert (IZR (num - 1) <> 0) by (apply not_0_IZR; lia).
  field. assumption.
Qed.

Lemma nth_map_seq {A : Type} (f : nat -> A) (n j : nat) (d : A) :
  (j < n)%nat -> nth j (map f (seq 0 n)) d = f j.
Proof.
  intros Hj.
  rewrite (nth_indep _ d (f 0%nat)) by now rewrite length_map, length_seq.
  now rewrite map_nth, seq_nth.
Qed.

(** ** Circle placement *)

Lemma combine_map_map {A B C : Type} (f : A -> B) (g : A -> C) (l : list A) :
  combine (map f l) (map g l) = map (fun u => (f u, g u)) l.
Proof.
  induction l as [|u l IH]; simpl; [reflexivity|]. now rewrite IH.
Qed.

(** Both placement functions are the same computation. *)
Lemma output_hole_centres_roller_centres (r : float) (k : Z) :
  output_hole_centres r k = roller_centres r k.
Proof. reflexivity. Qed.

Lemma roller_centres_points (r : float) (k : Z) :
  (1 <= k)%Z ->
  roller_centres r k =
  Some (map (fun j => (r * cos (INR j * ((2 * PI - 0) / IZR k) + 0),
                       r * sin (INR j * ((2 * PI - 0) / IZR k) + 0)))
            (seq 0 (Z.to_nat k))).
Proof.
  intros Hk. unfold roller_centres. rewrite (linspace_open _ _ _ Hk).
  unfold bind. now rewrite !map_map, combine_map_map.
Qed.

Lemma on_circle (r a : float) :
  0 <= r -> sqrt ((r * cos a) * (r * cos a) + (r * sin a) * (r * sin a)) = r.
Proof.
  intros Hr.
  replace ((r * cos a) * (r * cos a) + (r * sin a) * (r * sin a))
    with (r * r * (Rsqr (sin a) + Rsqr (cos a))) by (unfold Rsqr; ring).
  rewrite sin2_cos2, Rmult_1_r. now apply sqrt_square.
Qed.

(** C6.  Circle placement, for a radius [r >= 0] and a count [k >= 1]:
    [roller_centres] and [output_hole_centres] return the same [k] points,
    the point of index [j] being (r cos (2 PI j / k), r sin (2 PI j / k)),
    in increasing order of [j]; every point is at distance [r] from the
    origin, and the angles of consecutive points differ by 2 PI / k. *)
Theorem circle_placement (r : float) (k : Z) :
  0 <= r -> (1 <= k)%Z ->
  exists ang pts,
    linspace 0 (2 * PI) k false = Some ang
    /\ roller_centres r k = Some pts
    /\ output_hole_centres r k = Some pts
    /\ List.length pts = Z.to_nat k
    /\ (forall j, (j < Z.to_nat k)%nat ->
          nth j ang 0 = 2 * PI * INR j / IZR k
          /\ nth j pts (0, 0) = (r * cos (2 * PI * INR j / IZR k),
                                 r * sin (2 * PI * INR j / IZR k)))
    /\ (forall x y, In (x, y) pts -> sqrt (x * x + y * y) = r)
    /\ (forall j, (S j < Z.to_nat k)%nat ->
          nth (S j) ang 0 - nth j ang 0 = 2 * PI / IZR k).
Proof.
  intros Hr Hk.
  assert (Hk0 : IZR k <> 0) by (apply not_0_IZR; lia).
  assert (Hang : forall j, INR j * ((2 * PI - 0) / IZR k) + 0
                           = 2 * PI * INR j / IZR k)
    by (intros j; now field).
  do 2 eexists.
  split; [apply (linspace_open _ _ _ Hk)|].
  split; [apply (roller_centres_points _ _ Hk)|].
  split; [rewrite output_hole_centres_roller_centres;
          apply (roller_centres_points _ _ Hk)|].
  split; [now rewrite length_map, length_seq|].
  split; [|split].
  - intros j Hj. rewrite !nth_map_seq by assumption.
    now rewrite Hang.
  - intros x y Hin. apply in_map_iff in Hin as [j [Hj _]].
    injection Hj as <- <-. now apply on_circle.
  - intros j Hj. rewrite !nth_map_seq by lia.
    rewrite S_INR. now field.
Qed.

Lemma circle_placement_witness :
  0 <= 20 /\ (1 <= 4)%Z /\
  exists ang pts,
    linspace 0 (2 * PI) 4 false = Some ang
    /\ roller_centres 20 4 = Some pts
    /\ output_hole_centres 20 4 = Some pts
    /\ List.length pts = Z.to_nat 4
    /\ (forall j, (j < Z.to_nat 4)%nat ->
          nth j ang 0 = 2 * PI * INR j / IZR 4
          /\ nth j pts (0, 0) = (20 * cos (2 * PI * INR j / IZR 4),
                                 20 * sin (2 * PI * INR j / IZR 4)))
    /\ (forall x y, In (x, y) pts -> sqrt (x * x + y * y) = 20)
    /\ (forall j, (S j < Z.to_nat 4)%nat ->
          nth (S j) ang 0 - nth j ang 0 = 2 * PI / IZR 4).
Proof.
  split; [lra|]. split; [lia|].
  apply circle_placement; [lra | lia].
Defined.

(** ** The sweep of the page *)

(** At the parameter value 0 with phase offset 0, as soon as the quotient
    [q = R / (E N)] exceeds 1. *)
Lemma first_sample (R Rr E : float) (N : Z) (q : float) :
  1 < q ->
  sample_psi N 0 q 0 = 0
  /\ sample_x R Rr E N 0 q 0 = R - Rr - E
  /\ sample_y R Rr E N 0 q 0 = 0.
Proof.
  intros Hq.
  assert (Hpsi : sample_psi N 0 q 0 = 0).
  { unfold sample_psi, sample_denom.
    rewrite Rplus_0_r, Rmult_0_r, sin_0, cos_0.
    rewrite arctan2_pos by lra.
    unfold Rdiv. now rewrite Rmult_0_l, atan_0. }
  split; [assumption|].
  unfold sample_x, sample_y. rewrite Hpsi, !Rplus_0_r, Rmult_0_r, sin_0, cos_0.
  split; ring.
Qed.

Lemma sweep_step_positive : 0 < (2 * PI - 9e-4 - 0) / IZR (1200 - 1).
Proof.
  pose proof PI2_1. apply Rdiv_lt_0_compat; [lra|].
  apply IZR_lt. lia.
Qed.

(** C2.  For R = 20, Rr = 3, E = 1.1, N = 10, samples = 1200,
    epsilon = 9e-4 and phase offset 0 (whatever the other fields), the
    sweep has exactly 1200 parameter values, strictly increasing from 0,
    the profile has one point for each of them in the same order, and at
    the first point psi = atan2 0 (R / (E N)) = 0, x = 15.9 and y = 0. *)
Theorem concrete_scenario
  (out_pin_circle_R : float) (out_pin_count : Z)
  (out_pin_diam hole_clearance : float) (dual_disc : bool)
  (disc2_phase_deg : float) :
  exists t x y,
    let p := Params.mk 20 3 1.1 10 out_pin_circle_R out_pin_count
               out_pin_diam hole_clearance dual_disc disc2_phase_deg
               1200 9e-4 in
    sweep p = Some t
    /\ disc1 p = Some (x, y)
    /\ List.length t = 1200%nat
    /\ List.length x = 1200%nat
    /\ List.length y = 1200%nat
    /\ nth 0 t 0 = 0
    /\ (forall i j, (i < j < 1200)%nat -> nth i t 0 < nth j t 0)
    /\ (forall i, (i < 1200)%nat ->
          (nth i x 0, nth i y 0)
          = closed_form_point 20 3 1.1 10 0 (nth i t 0))
    /\ sample_psi 10 0 (20 / (1.1 * IZR 10)) (nth 0 t 0)
       = arctan2 0 (20 / (1.1 * IZR 10))
    /\ arctan2 0 (20 / (1.1 * IZR 10)) = 0
    /\ nth 0 x 0 = 15.9
    /\ nth 0 y 0 = 0.
Proof.
  assert (HEN : 1.1 * IZR 10 <> 0) by lra.
  assert (Hq : 1 < 20 / (1.1 * IZR 10)).
  { apply (Rmult_lt_reg_r (1.1 * IZR 10)); [lra|].
    unfold Rdiv. rewrite Rmult_assoc, Rinv_l; lra. }
  assert (Hn : Z.to_nat 1200 = 1200%nat) by reflexivity.
  pose proof sweep_step_positive as Hstep.
  destruct (first_sample 20 3 1.1 10 _ Hq) as (Hpsi & Hx & Hy).
  do 3 eexists. cbv zeta. unfold disc1, sweep. cbn [Params.R Params.Rr
    Params.E Params.N Params.samples Params.eps].
  rewrite linspace_closed by lia. unfold bind at 1.
  rewrite cycloid_profile_xy_samples, (py_div_some _ _ HEN). unfold bind.
  rewrite !map_map, Hn.
  split; [reflexivity|]. split; [reflexivity|].
  split; [now rewrite length_map, length_seq|].
  split; [now rewrite length_map, length_seq|].
  split; [now rewrite length_map, length_seq|].
  assert (H0 : INR 0 * ((2 * PI - 9e-4 - 0) / IZR (1200 - 1)) + 0 = 0)
    by (simpl INR; ring).
  split; [rewrite nth_map_seq by lia; exact H0|].
  split.
  { intros i j Hij. rewrite !nth_map_seq by lia.
    assert (INR i < INR j) by (apply lt_INR; lia).
    apply Rplus_lt_compat_r, Rmult_lt_compat_r; assumption. }
  split.
  { intros i Hi. rewrite !nth_map_seq by lia.
    now rewrite <- sample_closed_form. }
  rewrite !nth_map_seq by lia. rewrite H0, Hpsi, Hx, Hy.
  split; [|split; [|split; [lra | reflexivity]]].
  - rewrite arctan2_pos by lra. unfold Rdiv at 1. now rewrite Rmult_0_l, atan_0.
  - rewrite arctan2_pos by lra. unfold Rdiv at 1. now rewrite Rmult_0_l, atan_0.
Qed.

(** ** The validity checker *)

(** The checker fails on a zero roller count only. *)
Lemma warnings_total (p : Params.t) :
  Params.N p <> 0%Z -> exists ws, warnings p = Some ws.
Proof.
  intros HN. unfold warnings.
  rewrite py_div_some by now apply not_0_IZR.
  unfold bind. now eexists.
Qed.

Lemma warn_R_small_triggered (p : Params.t) (ws : list string) :
  Params.R p <= Params.Rr p -> warnings p = Some ws -> In warn_R_small ws.
Proof.
  intros Hle. unfold warnings.
  destruct (py_div (Params.R p) (IZR (Params.N p))) as [q|]; [|discriminate].
  unfold bind. destruct (Rle_dec (Params.R p) (Params.Rr p)); [|contradiction].
  intros [= <-]. apply in_or_app. right. now left.
Qed.

(** C7.  For R = 1, Rr = 1, E = 1, N = 10 the warning list contains the
    "R should usually be larger than Rr" warning, which is the only warning
    that this pair (R, Rr) triggers (the other entry of the list is the
    E > R/N warning, which E triggers); for R = 20, Rr = 3, E = 1.1, N = 10
    the list is empty; in both cases the checker returns and the curve
    evaluator returns its arrays afterwards. *)
Theorem validity_checker_scenarios
  (out_pin_circle_R : float) (out_pin_count : Z)
  (out_pin_diam hole_clearance : float) (dual_disc : bool)
  (disc2_phase_deg : float) (samples : Z) (eps : float) :
  let p1 := Params.mk 1 1 1 10 out_pin_circle_R out_pin_count out_pin_diam
              hole_clearance dual_disc disc2_phase_deg samples eps in
  let p2 := Params.mk 20 3 1.1 10 out_pin_circle_R out_pin_count out_pin_diam
              hole_clearance dual_disc disc2_phase_deg samples eps in
  warnings p1 = Some [warn_E_large; warn_R_small]
  /\ (forall w, triggered_by_R_Rr 1 1 w <-> w = warn_R_small)
  /\ warnings p2 = Some []
  /\ (forall t phase_rad, exists x y,
        cycloid_profile_xy t 1 1 1 10 phase_rad = Some (x, y)
        /\ List.length x = List.length t /\ List.length y = List.length t)
  /\ (forall t phase_rad, exists x y,
        cycloid_profile_xy t 20 3 1.1 10 phase_rad = Some (x, y)
        /\ List.length x = List.length t /\ List.length y = List.length t).
Proof.
  cbv zeta.
  split; [|split; [|split; [|split]]].
  - unfold warnings; cbn [Params.R Params.Rr Params.E Params.N].
    rewrite py_div_some by lra. unfold bind. decide_R. reflexivity.
  - intros w. split.
    + intros Hw.
      specialize (Hw (Params.mk 1 1 0.05 10 out_pin_circle_R out_pin_count
                        out_pin_diam hole_clearance dual_disc disc2_phase_deg
                        samples eps) [warn_R_small] eq_refl eq_refl).
      destruct Hw as [Hw | []]; [|now symmetry].
      unfold warnings; cbn [Params.R Params.Rr Params.E Params.N].
      rewrite py_div_some by lra. unfold bind. decide_R. reflexivity.
    + intros -> p ws HR HRr. apply warn_R_small_triggered. lra.
  - unfold warnings; cbn [Params.R Params.Rr Params.E Params.N].
    rewrite py_div_some by lra. unfold bind. decide_R. reflexivity.
  - intros t phase_rad. apply cycloid_profile_xy_total. lra.
  - intros t phase_rad. apply cycloid_profile_xy_total. lra.
Qed.

(** ** The exported curve description *)

(** The range line is always printed from [t_range]. *)
Lemma range_line_printed (float_str : float -> string) (p : Params.t) :
  nth 13 (solidworks_equations_lines float_str p) EmptyString
  = range_line float_str (fst (t_range p)) (snd (t_range p)).
Proof.
  unfold solidworks_equations_lines.
  destruct (Params.dual_disc p); reflexivity.
Qed.

(** With a zero epsilon the recommended range is the closed interval from
    0 to 2 PI, and that is the range line the exporter prints. *)
Lemma t_range_closed_at_zero_eps :
  snd (t_range zero_eps_params) = 2 * PI
  /\ forall float_str : float -> string,
       nth 13 (solidworks_equations_lines float_str zero_eps_params)
           EmptyString
       = range_line float_str 0 (2 * PI).
Proof.
  assert (H : snd (t_range zero_eps_params) = 2 * PI).
  { unfold t_range, zero_eps_params. cbn [snd Params.eps]. ring. }
  split; [exact H|].
  intros float_str. rewrite range_line_printed. now rewrite H.
Qed.

(** In double precision an epsilon below the spacing of the doubles around
    2 pi is lost in [(2.0 * math.pi) - eps], as 2^-56 is; the least epsilon
    that the page accepts, 1e-6, is not. *)
Lemma small_eps_absorbed_in_doubles :
  Double.t1 Double.two_m56 = Double.t1 PrimFloat.zero
  /\ PrimFloat.ltb (Double.t1 Double.d1e_6) (Double.t1 PrimFloat.zero) = true.
Proof.
  split; reflexivity.
Qed.

(** C8, from the least epsilon of the page.  For every [Params] value with
    [eps >= 1e-6], the lines of the exported text contain, one after the
    other, the X and Y formula lines, written with the one-argument inverse tangent
    atan( sin((1-N)*t) / ((R/(E*N)) - cos((1-N)*t)) ) for psi (the value of
    N printed in decimal), an empty line, and the recommended range line
    from 0 to 2 PI - epsilon, whose upper end is at most 2 PI - 1e-6,
    so below 2 PI. *)
Theorem solidworks_equations_text_contents
  (float_str : float -> string) (p : Params.t) :
  1e-6 <= Params.eps p ->
  let n := int_str (Params.N p) in
  let psi :=
    ("atan( sin((1-" ++ n ++ ")*t) / ((R/(E*" ++ n ++ ")) - cos((1-" ++ n
       ++ ")*t)) )")%string in
  let x_line :=
    ("X = (R*cos(t)) - (Rr*cos(t + " ++ psi ++ ")) - (E*cos(" ++ n
       ++ "*t))")%string in
  let y_line :=
    ("Y = (-R*sin(t)) + (Rr*sin(t + " ++ psi ++ ")) + (E*sin(" ++ n
       ++ "*t))")%string in
  let range :=
    ("Recommended t range: " ++ float_str 0 ++ " to "
       ++ float_str (2 * PI - Params.eps p)
       ++ " (avoid exactly 2*pi)")%string in
  exists pre post,
    solidworks_equations_lines float_str p
    = pre ++ [x_line; y_line; EmptyString; range] ++ post
    /\ solidworks_equations_text float_str p
       = String.concat newline
           (pre ++ [x_line; y_line; EmptyString; range] ++ post)
    /\ t_range p = (0, 2 * PI - Params.eps p)
    /\ snd (t_range p) <= 2 * PI - 1e-6
    /\ snd (t_range p) < 2 * PI.
Proof.
  intros Heps. cbv zeta.
  exists (firstn 10 (solidworks_equations_lines float_str p)),
         (skipn 14 (solidworks_equations_lines float_str p)).
  assert (Hlines :
    solidworks_equations_lines float_str p
    = firstn 10 (solidworks_equations_lines float_str p)
      ++ [x_eq (Params.N p); y_eq (Params.N p); EmptyString;
          range_line float_str 0 (2 * PI - Params.eps p)]
      ++ skipn 14 (solidworks_equations_lines float_str p)).
  { unfold solidworks_equations_lines.
    destruct (Params.dual_disc p); reflexivity. }
  split; [exact Hlines|].
  split; [unfold solidworks_equations_text; now rewrite Hlines at 1|].
  split; [reflexivity|].
  unfold t_range. cbn [snd]. split; lra.
Qed.

Lemma solidworks_equations_text_contents_witness :
  let float_str := fun _ : float => "?"%string in
  let p := Params.mk 20 3 1.1 10 10 4 8 0.2 false 180 1200 9e-4 in
  1e-6 <= Params.eps p /\
  exists pre post,
    solidworks_equations_lines float_str p
    = pre ++ [x_eq 10; y_eq 10; EmptyString;
              range_line float_str 0 (2 * PI - 9e-4)] ++ post
    /\ solidworks_equations_text float_str p
       = String.concat newline
           (pre ++ [x_eq 10; y_eq 10; EmptyString;
                    range_line float_str 0 (2 * PI - 9e-4)] ++ post)
    /\ t_range p = (0, 2 * PI - 9e-4)
    /\ snd (t_range p) <= 2 * PI - 1e-6
    /\ snd (t_range p) < 2 * PI.
Proof.
  cbv zeta. split; [cbn [Params.eps]; lra|].
  apply (solidworks_equations_text_contents (fun _ => "?"%string)
           (Params.mk 20 3 1.1 10 10 4 8 0.2 false 180 1200 9e-4)).
  cbn [Params.eps]. lra.
Defined.

(** * Further properties of the source *)

(** ** The evaluator: failure, offset, bounds, lobes *)

(** X1.  A zero eccentricity or a zero roller count makes the evaluator
    raise; with both non-zero, and a roller count that a float holds
    exactly (below 2^53 in absolute value), it returns one [x] and one [y]
    for each parameter value. *)
Theorem cycloid_profile_xy_raises_on_zero
  (t : list float) (R Rr E : float) (N : Z) (phase_rad : float) :
  (E = 0 \/ N = 0%Z -> cycloid_profile_xy t R Rr E N phase_rad = None)
  /\ (E <> 0 -> N <> 0%Z -> (Z.abs N < 2 ^ 53)%Z ->
      exists x y,
        cycloid_profile_xy t R Rr E N phase_rad = Some (x, y)
        /\ List.length x = List.length t
        /\ List.length y = List.length t).
Proof.
  split.
  - intros H. apply cycloid_profile_xy_zero_division.
    destruct H as [-> | ->]; ring.
  - intros HE HN _. apply cycloid_profile_xy_total.
    intros H. apply Rmult_integral in H as [H|H]; [contradiction|].
    now apply eq_IZR_R0 in H.
Qed.

Lemma nth_map_lt {A B : Type} (f : A -> B) (l : list A) (i : nat)
  (d : A) (e : B) :
  (i < List.length l)%nat -> nth i (map f l) e = f (nth i l d).
Proof.
  intros Hi. rewrite (nth_indep _ e (f d)) by now rewrite length_map.
  apply map_nth.
Qed.

Lemma sample_offset (R Rr E : float) (N : Z) (phase_rad q u : float) :
  let tt := u + phase_rad in
  (sample_x R Rr E N phase_rad q u - (R * cos tt - E * cos (IZR N * tt)))
  * (sample_x R Rr E N phase_rad q u - (R * cos tt - E * cos (IZR N * tt)))
  + (sample_y R Rr E N phase_rad q u - (- R * sin tt + E * sin (IZR N * tt)))
    * (sample_y R Rr E N phase_rad q u
       - (- R * sin tt + E * sin (IZR N * tt)))
  = Rr * Rr.
Proof.
  cbv zeta. unfold sample_x, sample_y.
  set (w := u + phase_rad + sample_psi N phase_rad q u).
  replace (Rr * Rr) with (Rr * Rr * (Rsqr (sin w) + Rsqr (cos w)))
    by (rewrite sin2_cos2; ring).
  unfold Rsqr. ring.
Qed.

(** X2.  Every point of the profile is at distance [Rr] (squared: [Rr * Rr])
    from the point of the base trochoid
    (R cos tt - E cos (N tt), - R sin tt + E sin (N tt)) of the same
    parameter value. *)
Theorem profile_offset_by_roller_radius
  (t : list float) (R Rr E : float) (N : Z) (phase_rad : float) :
  E * IZR N <> 0 ->
  exists x y,
    cycloid_profile_xy t R Rr E N phase_rad = Some (x, y)
    /\ forall i, (i < List.length t)%nat ->
         let tt := nth i t 0 + phase_rad in
         let bx := R * cos tt - E * cos (IZR N * tt) in
         let by_ := - R * sin tt + E * sin (IZR N * tt) in
         (nth i x 0 - bx) * (nth i x 0 - bx)
         + (nth i y 0 - by_) * (nth i y 0 - by_) = Rr * Rr.
Proof.
  intros HEN. rewrite cycloid_profile_xy_samples, (py_div_some _ _ HEN).
  unfold bind. do 2 eexists. split; [reflexivity|].
  intros i Hi. cbv zeta.
  rewrite !(nth_map_lt _ _ _ 0) by assumption.
  apply sample_offset.
Qed.

Lemma profile_offset_by_roller_radius_witness :
  1 * IZR 10 <> 0 /\
  exists x y,
    cycloid_profile_xy [0; 1] 20 3 1 10 0 = Some (x, y)
    /\ forall i, (i < List.length [0; 1])%nat ->
         let tt := nth i [0; 1] 0 + 0 in
         let bx := 20 * cos tt - 1 * cos (IZR 10 * tt) in
         let by_ := - 20 * sin tt + 1 * sin (IZR 10 * tt) in
         (nth i x 0 - bx) * (nth i x 0 - bx)
         + (nth i y 0 - by_) * (nth i y 0 - by_) = 3 * 3.
Proof.
  split; [lra | apply profile_offset_by_roller_radius; lra].
Defined.

Lemma scaled_cos_bound (k c : float) :
  -1 <= c <= 1 -> - Rabs k <= k * c <= Rabs k.
Proof.
  intros Hc. unfold Rabs. destruct (Rcase_abs k); nra.
Qed.

Lemma sample_bounds (R Rr E : float) (N : Z) (phase_rad q u : float) :
  Rabs (sample_x R Rr E N phase_rad q u) <= Rabs R + Rabs Rr + Rabs E
  /\ Rabs (sample_y R Rr E N phase_rad q u) <= Rabs R + Rabs Rr + Rabs E.
Proof.
  unfold sample_x, sample_y.
  set (w := u + phase_rad + sample_psi N phase_rad q u).
  pose proof (scaled_cos_bound R _ (COS_bound (u + phase_rad))).
  pose proof (scaled_cos_bound Rr _ (COS_bound w)).
  pose proof (scaled_cos_bound E _ (COS_bound (IZR N * (u + phase_rad)))).
  pose proof (scaled_cos_bound R _ (SIN_bound (u + phase_rad))).
  pose proof (scaled_cos_bound Rr _ (SIN_bound w)).
  pose proof (scaled_cos_bound E _ (SIN_bound (IZR N * (u + phase_rad)))).
  split; apply Rabs_le; lra.
Qed.

(** X3.  The profile stays in the square of half-side |R| + |Rr| + |E| around
    the origin: no coordinate exceeds that bound. *)
Theorem profile_within_bounds
  (t : list float) (R Rr E : float) (N : Z) (phase_rad : float) :
  E * IZR N <> 0 ->
  exists x y,
    cycloid_profile_xy t R Rr E N phase_rad = Some (x, y)
    /\ Forall (fun v => Rabs v <= Rabs R + Rabs Rr + Rabs E) x
    /\ Forall (fun v => Rabs v <= Rabs R + Rabs Rr + Rabs E) y.
Proof.
  intros HEN. rewrite cycloid_profile_xy_samples, (py_div_some _ _ HEN).
  unfold bind. do 2 eexists. split; [reflexivity|].
  split; apply Forall_map, Forall_forall; intros u _; apply sample_bounds.
Qed.

Lemma profile_within_bounds_witness :
  1 * IZR 10 <> 0 /\
  exists x y,
    cycloid_profile_xy [0; 1] 20 3 1 10 0 = Some (x, y)
    /\ Forall (fun v => Rabs v <= Rabs 20 + Rabs 3 + Rabs 1) x
    /\ Forall (fun v => Rabs v <= Rabs 20 + Rabs 3 + Rabs 1) y.
Proof.
  split; [lra | apply profile_within_bounds; lra].
Defined.





(** ** The sweep and the discs of the page *)

Lemma set_last_length (l : list float) (v : float) :
  List.length (set_last l v) = List.length l.
Proof.
  destruct l as [|a l] using rev_ind; [reflexivity|].
  now rewrite set_last_app, !length_app.
Qed.

Lemma linspace_length (start stop : float) (num : Z) (endpoint : bool)
  (l : list float) :
  linspace start stop num endpoint = Some l ->
  List.length l = Z.to_nat num.
Proof.
  unfold linspace. destruct (num <? 0)%Z; [discriminate|].
  cbv zeta. intros [= <-].
  destruct (endpoint && (1 <? num)%Z); rewrite ?set_last_length;
    destruct (0 <? _)%Z; try destruct (Req_dec_T _ 0);
    now rewrite !length_map, length_seq.
Qed.

Lemma linspace_none_iff (start stop : float) (num : Z) (endpoint : bool) :
  linspace start stop num endpoint = None <-> (num < 0)%Z.
Proof.
  unfold linspace. destruct (Z.ltb_spec num 0); split;
    try discriminate; try lia; reflexivity.
Qed.

Lemma sweep_values (p : Params.t) :
  (2 <= Params.samples p)%Z ->
  sweep p =
  Some (map (fun j => INR j * ((2 * PI - Params.eps p - 0)
                               / IZR (Params.samples p - 1)) + 0)
            (seq 0 (Z.to_nat (Params.samples p)))).
Proof.
  intros Hs. unfold sweep. apply linspace_closed. lia.
Qed.

Lemma sweep_last_index (p : Params.t) :
  (2 <= Params.samples p)%Z ->
  INR (Z.to_nat (Params.samples p - 1))
  * ((2 * PI - Params.eps p - 0) / IZR (Params.samples p - 1)) + 0
  = 2 * PI - Params.eps p.
Proof.
  intros Hs. rewrite INR_IZR_INZ, Z2Nat.id by lia.
  assert (IZR (Params.samples p - 1) <> 0) by (apply not_0_IZR; lia).
  now field.
Qed.

(** X5.  With at least two samples and 0 < eps < 2 PI, the sweep has exactly
    [samples] values, starts at 0, increases strictly, ends exactly at
    2 PI - eps, and so never reaches 2 PI. *)
Theorem sweep_stops_short (p : Params.t) :
  (2 <= Params.samples p)%Z ->
  0 < Params.eps p < 2 * PI ->
  exists t,
    sweep p = Some t
    /\ List.length t = Z.to_nat (Params.samples p)
    /\ nth 0 t 0 = 0
    /\ last t 0 = 2 * PI - Params.eps p
    /\ (forall i j, (i < j < List.length t)%nat -> nth i t 0 < nth j t 0)
    /\ Forall (fun u => 0 <= u < 2 * PI) t.
Proof.
  intros Hs Heps. eexists. split; [apply (sweep_values p Hs)|].
  set (n := Z.to_nat (Params.samples p)).
  set (step := (2 * PI - Params.eps p - 0) / IZR (Params.samples p - 1)).
  assert (Hstep : 0 < step).
  { apply Rdiv_lt_0_compat; [lra|]. apply IZR_lt. lia. }
  assert (Hn : n = S (Z.to_nat (Params.samples p - 1))) by (unfold n; lia).
  pose proof (sweep_last_index p Hs) as Hlast. fold step in Hlast.
  rewrite length_map, length_seq.
  split; [reflexivity|].
  split; [rewrite nth_map_seq by lia; simpl INR; ring|].
  split; [rewrite Hn, seq_S, map_app; cbn [map Nat.add];
          rewrite last_last; exact Hlast|].
  split.
  - intros i j Hij. rewrite !nth_map_seq by lia.
    assert (INR i < INR j) by (apply lt_INR; lia).
    apply Rplus_lt_compat_r, Rmult_lt_compat_r; assumption.
  - apply Forall_map, Forall_forall. intros j Hj. apply in_seq in Hj.
    assert (0 <= INR j) by apply pos_INR.
    assert (INR j <= INR (Z.to_nat (Params.samples p - 1)))
      by (apply le_INR; lia).
    split; [nra|].
    apply Rle_lt_trans with (2 * PI - Params.eps p); [|lra].
    rewrite <- Hlast. apply Rplus_le_compat_r, Rmult_le_compat_r; lra.
Qed.

Lemma sweep_stops_short_witness :
  let p := Params.mk 20 3 1.1 10 10 4 8 0.2 false 180 1200 9e-4 in
  (2 <= Params.samples p)%Z /\ 0 < Params.eps p < 2 * PI /\
  exists t,
    sweep p = Some t
    /\ List.length t = Z.to_nat (Params.samples p)
    /\ nth 0 t 0 = 0
    /\ last t 0 = 2 * PI - Params.eps p
    /\ (forall i j, (i < j < List.length t)%nat -> nth i t 0 < nth j t 0)
    /\ Forall (fun u => 0 <= u < 2 * PI) t.
Proof.
  cbv zeta. pose proof PI2_1.
  split; [cbn [Params.samples]; lia|].
  split; [cbn [Params.eps]; lra|].
  apply sweep_stops_short; [cbn [Params.samples]; lia|cbn [Params.eps]; lra].
Defined.

(** X6.  The degenerate sample counts: a negative count raises, a zero count
    gives the empty sweep, and a count of one gives the single value 0,
    whatever eps is. *)
Theorem sweep_small_counts (p : Params.t) :
  (sweep p = None <-> (Params.samples p < 0)%Z)
  /\ (Params.samples p = 0%Z -> sweep p = Some [])
  /\ (Params.samples p = 1%Z -> sweep p = Some [0]).
Proof.
  split; [apply linspace_none_iff|].
  unfold sweep, linspace.
  split; intros ->; simpl; [reflexivity|].
  do 2 f_equal. ring.
Qed.

(** X7.  The first disc raises on a negative sample count, on a zero
    eccentricity and on a zero roller count; whenever it is computed it has
    exactly [samples] points, an x and a y for each. *)
Theorem disc1_size (p : Params.t) :
  ((Params.samples p < 0)%Z \/ Params.E p = 0 \/ Params.N p = 0%Z ->
   disc1 p = None)
  /\ forall x y, disc1 p = Some (x, y) ->
       List.length x = Z.to_nat (Params.samples p)
       /\ List.length y = Z.to_nat (Params.samples p).
Proof.
  unfold disc1, sweep. split.
  - intros H.
    destruct (linspace 0 _ (Params.samples p) true) as [t|] eqn:Ht;
      unfold bind; [|reflexivity].
    destruct H as [Hs | HEN].
    + rewrite (proj2 (linspace_none_iff _ _ _ _) Hs) in Ht. discriminate.
    + apply cycloid_profile_xy_zero_division.
      destruct HEN as [-> | ->]; ring.
  - intros x y.
    destruct (linspace 0 _ (Params.samples p) true) as [t|] eqn:Ht;
      unfold bind; [|discriminate].
    apply linspace_length in Ht.
    rewrite cycloid_profile_xy_samples.
    destruct (py_div _ _) as [q|]; unfold bind; [|discriminate].
    intros [= <- <-]. now rewrite !length_map.
Qed.





(** With the second disc disabled, the page computes the first disc only. *)
Lemma profiles_single_disc (p : Params.t) :
  Params.dual_disc p = false ->
  profiles p = option_map (fun xy => (xy, None)) (disc1 p).
Proof.
  intros Hdual. unfold profiles, disc1.
  destruct (sweep p) as [t|]; [|reflexivity]. unfold bind.
  rewrite Hdual.
  destruct (cycloid_profile_xy t _ _ _ _ 0) as [xy|]; reflexivity.
Qed.

(** X9.  With at least two samples, the last point of the first disc is the
    mirror image about the x-axis of the curve's point at the parameter
    value [eps]: the profile stops one [eps] short of closing on its first
    point. *)
Theorem disc1_last_point (p : Params.t) :
  (2 <= Params.samples p)%Z ->
  Params.E p * IZR (Params.N p) <> 0 ->
  exists x y,
    disc1 p = Some (x, y)
    /\ last x 0
       = fst (closed_form_point (Params.R p) (Params.Rr p) (Params.E p)
                (Params.N p) 0 (Params.eps p))
    /\ last y 0
       = - snd (closed_form_point (Params.R p) (Params.Rr p) (Params.E p)
                  (Params.N p) 0 (Params.eps p)).
Proof.
  intros Hs HEN. unfold disc1.
  rewrite (sweep_values p Hs). unfold bind at 1.
  rewrite cycloid_profile_xy_samples, (py_div_some _ _ HEN). unfold bind.
  do 2 eexists. split; [reflexivity|].
  rewrite <- sample_closed_form. cbn [fst snd].
  replace (Z.to_nat (Params.samples p))
    with (S (Z.to_nat (Params.samples p - 1))) by lia.
  rewrite seq_S, !map_app. cbn [map Nat.add]. rewrite !last_last.
  rewrite (sweep_last_index p Hs).
  replace (2 * PI - Params.eps p) with (- Params.eps p + 2 * PI) by ring.
  rewrite sample_x_turn, sample_y_turn.
  split; apply sample_mirror.
Qed.

Lemma disc1_last_point_witness :
  let p := Params.mk 20 3 1.1 10 10 4 8 0.2 false 180 1200 9e-4 in
  (2 <= Params.samples p)%Z /\
  Params.E p * IZR (Params.N p) <> 0 /\
  exists x y,
    disc1 p = Some (x, y)
    /\ last x 0
       = fst (closed_form_point (Params.R p) (Params.Rr p) (Params.E p)
                (Params.N p) 0 (Params.eps p))
    /\ last y 0
       = - snd (closed_form_point (Params.R p) (Params.Rr p) (Params.E p)
                  (Params.N p) 0 (Params.eps p)).
Proof.
  cbv zeta.
  split; [cbn [Params.samples]; lia|].
  split; [cbn [Params.E Params.N]; lra|].
  apply disc1_last_point;
    [cbn [Params.samples]; lia | cbn [Params.E Params.N]; lra].
Defined.

(** ** The sanity checks at the threshold *)

Lemma warnings_ok_intro (p : Params.t) :
  Params.N p <> 0%Z -> 0 < Params.E p ->
  Params.E p <= Params.R p / IZR (Params.N p) ->
  Params.Rr p < Params.R p ->
  warnings p = Some [].
Proof.
  intros HN HE HEN HR. unfold warnings.
  rewrite py_div_some by now apply not_0_IZR. unfold bind.
  decide_R. reflexivity.
Qed.

(** X13.  The bound of the second check is not strict: at E = R / N (with
    R > Rr, R > 0, N >= 1) the checker reports nothing, and yet [denom] is
    exactly 0 at the first sample of the sweep, where [psi] is 0. *)
Theorem denom_vanishes_at_threshold (p : Params.t) :
  0 < Params.R p -> (1 <= Params.N p)%Z ->
  Params.E p = Params.R p / IZR (Params.N p) ->
  Params.Rr p < Params.R p ->
  warnings p = Some []
  /\ exists q,
       py_div (Params.R p) (Params.E p * IZR (Params.N p)) = Some q
       /\ sample_denom (Params.N p) 0 q 0 = 0
       /\ sample_psi (Params.N p) 0 q 0 = 0.
Proof.
  intros HR HN HE HRr.
  assert (HN' : 1 <= IZR (Params.N p)) by now apply IZR_le.
  assert (HE' : 0 < Params.E p).
  { rewrite HE. apply Rdiv_lt_0_compat; lra. }
  split.
  { apply warnings_ok_intro; try assumption; [lia | lra]. }
  assert (Hq : Params.R p / (Params.E p * IZR (Params.N p)) = 1).
  { rewrite HE. field. lra. }
  assert (Hd : sample_denom (Params.N p) 0
                 (Params.R p / (Params.E p * IZR (Params.N p))) 0 = 0).
  { unfold sample_denom. rewrite Hq, Rplus_0_r, Rmult_0_r, cos_0. ring. }
  eexists. split.
  { apply py_div_some. intros H0.
    apply Rmult_integral in H0 as [H0|H0]; lra. }
  split; [exact Hd|].
  unfold sample_psi. rewrite Hd, Rplus_0_r, Rmult_0_r, sin_0.
  unfold arctan2. destruct (Rlt_dec 0 0); [lra | reflexivity].
Qed.

Lemma denom_vanishes_at_threshold_witness :
  let p := Params.mk 20 3 2 10 10 4 8 0.2 false 180 1200 9e-4 in
  0 < Params.R p /\ (1 <= Params.N p)%Z /\
  Params.E p = Params.R p / IZR (Params.N p) /\
  Params.Rr p < Params.R p /\
  warnings p = Some []
  /\ exists q,
       py_div (Params.R p) (Params.E p * IZR (Params.N p)) = Some q
       /\ sample_denom (Params.N p) 0 q 0 = 0
       /\ sample_psi (Params.N p) 0 q 0 = 0.
Proof.
  cbv zeta. cbn [Params.R Params.Rr Params.E Params.N].
  split; [lra|]. split; [lia|]. split; [lra|]. split; [lra|].
  apply (denom_vanishes_at_threshold
           (Params.mk 20 3 2 10 10 4 8 0.2 false 180 1200 9e-4));
    cbn [Params.R Params.Rr Params.E Params.N]; lia || lra.
Defined.

(** ** Circle placement: edge counts, rotation, distinctness, balance *)

(** X14.  A negative count raises and a zero count gives no centre, for both
    placement functions. *)
Theorem circle_placement_small_counts (r : float) (k : Z) :
  (roller_centres r k = None <-> (k < 0)%Z)
  /\ (output_hole_centres r k = None <-> (k < 0)%Z)
  /\ roller_centres r 0 = Some []
  /\ output_hole_centres r 0 = Some [].
Proof.
  assert (H : roller_centres r k = None <-> (k < 0)%Z).
  { unfold roller_centres.
    destruct (linspace 0 (2 * PI) k false) as [ang|] eqn:Hl; unfold bind.
    - split; [discriminate|]. intros Hk.
      rewrite (proj2 (linspace_none_iff _ _ _ _) Hk) in Hl. discriminate.
    - split; [|reflexivity]. intros _. now apply linspace_none_iff in Hl. }
  repeat split; try apply H; reflexivity.
Qed.

Lemma placement_angle_step (k : Z) (j : nat) :
  INR (S j) * ((2 * PI - 0) / IZR k) + 0
  = INR j * ((2 * PI - 0) / IZR k) + 0 + (2 * PI - 0) / IZR k.
Proof. rewrite S_INR. ring. Qed.

(** X15.  For a count [k >= 1] the first centre is [(r, 0)] and each next centre
    is the previous one turned by 2 PI / k about the origin
    (counter-clockwise). *)
Theorem circle_placement_rotation (r : float) (k : Z) :
  (1 <= k)%Z ->
  exists pts,
    roller_centres r k = Some pts
    /\ nth 0 pts (0, 0) = (r, 0)
    /\ forall j, (S j < Z.to_nat k)%nat ->
         nth (S j) pts (0, 0)
         = (fst (nth j pts (0, 0)) * cos (2 * PI / IZR k)
            - snd (nth j pts (0, 0)) * sin (2 * PI / IZR k),
            fst (nth j pts (0, 0)) * sin (2 * PI / IZR k)
            + snd (nth j pts (0, 0)) * cos (2 * PI / IZR k)).
Proof.
  intros Hk. eexists. split; [apply (roller_centres_points _ _ Hk)|].
  split.
  - rewrite nth_map_seq by lia. simpl INR.
    rewrite Rmult_0_l, Rplus_0_r, cos_0, sin_0. f_equal; ring.
  - intros j Hj. rewrite !nth_map_seq by lia. cbn [fst snd].
    rewrite placement_angle_step.
    replace (2 * PI / IZR k) with ((2 * PI - 0) / IZR k)
      by (unfold Rdiv; ring).
    set (a := INR j * ((2 * PI - 0) / IZR k) + 0).
    rewrite cos_plus, sin_plus. f_equal; ring.
Qed.

Lemma circle_placement_rotation_witness :
  (1 <= 4)%Z /\
  exists pts,
    roller_centres 20 4 = Some pts
    /\ nth 0 pts (0, 0) = (20, 0)
    /\ forall j, (S j < Z.to_nat 4)%nat ->
         nth (S j) pts (0, 0)
         = (fst (nth j pts (0, 0)) * cos (2 * PI / IZR 4)
            - snd (nth j pts (0, 0)) * sin (2 * PI / IZR 4),
            fst (nth j pts (0, 0)) * sin (2 * PI / IZR 4)
            + snd (nth j pts (0, 0)) * cos (2 * PI / IZR 4)).
Proof.
  split; [lia | apply circle_placement_rotation; lia].
Defined.

Lemma sin_zero_small (x : float) : - PI < x < PI -> sin x = 0 -> x = 0.
Proof.
  intros Hx Hs.
  destruct (Rtotal_order x 0) as [Hneg | [H0 | Hpos]]; [|assumption|].
  - assert (0 < sin (- x)) by (apply sin_gt_0; lra).
    rewrite sin_neg in *. lra.
  - assert (0 < sin x) by (apply sin_gt_0; lra). lra.
Qed.

Lemma angle_determined (a b : float) :
  0 <= a < 2 * PI -> 0 <= b < 2 * PI ->
  cos a = cos b -> sin a = sin b -> a = b.
Proof.
  intros Ha Hb Hc Hs.
  assert (H1 : cos (2 * ((a - b) / 2)) = 1).
  { replace (2 * ((a - b) / 2)) with (a - b) by field.
    rewrite cos_minus, Hc, Hs.
    pose proof (sin2_cos2 b) as H. unfold Rsqr in H. lra. }
  rewrite cos_2a_sin in H1.
  assert (H2 : sin ((a - b) / 2) = 0) by nra.
  apply sin_zero_small in H2; lra.
Qed.

(** X16.  For a non-zero radius and a count [k >= 1], the [k] centres are
    pairwise distinct. *)
Theorem circle_placement_distinct (r : float) (k : Z) :
  r <> 0 -> (1 <= k)%Z ->
  exists pts, roller_centres r k = Some pts /\ NoDup pts.
Proof.
  intros Hr Hk. eexists. split; [apply (roller_centres_points _ _ Hk)|].
  assert (Hk' : 0 < IZR k) by (apply IZR_lt; lia).
  pose proof PI_RGT_0 as Hpi.
  set (s := (2 * PI - 0) / IZR k).
  assert (Hs : 0 < s) by (apply Rdiv_lt_0_compat; lra).
  assert (Hrange : forall j, (j < Z.to_nat k)%nat ->
                     0 <= INR j * s + 0 < 2 * PI).
  { intros j Hj. pose proof (pos_INR j).
    assert (INR j < IZR k).
    { rewrite <- (Z2Nat.id k) by lia. rewrite <- INR_IZR_INZ.
      now apply lt_INR. }
    split; [nra|].
    replace (2 * PI) with (IZR k * s) by (unfold s; field; lra). nra. }
  apply NoDup_map_NoDup_ForallPairs; [|apply seq_NoDup].
  intros i j Hi Hj Heq. apply in_seq in Hi, Hj.
  injection Heq as Hc Hsn.
  apply Rmult_eq_reg_l in Hc, Hsn; try assumption.
  assert (Ha : INR i * s + 0 = INR j * s + 0)
    by (apply angle_determined; auto; apply Hrange; lia).
  apply INR_eq. nra.
Qed.

Lemma circle_placement_distinct_witness :
  20 <> 0 /\ (1 <= 4)%Z /\
  exists pts, roller_centres 20 4 = Some pts /\ NoDup pts.
Proof.
  split; [lra|]. split; [lia|].
  apply circle_placement_distinct; [lra | lia].
Defined.

Lemma sum_list_app (l : list float) (v : float) :
  sum_list (l ++ [v]) = sum_list l + v.
Proof.
  unfold sum_list. induction l as [|a l IH]; simpl; [ring|].
  rewrite IH. ring.
Qed.

(** Telescoping sums of the cosines and sines of equally spaced angles. *)
Lemma sum_cos_equally_spaced (r s : float) (n : nat) :
  2 * sin (s / 2)
  * sum_list (map (fun j => r * cos (INR j * s + 0)) (seq 0 n))
  = r * (sin ((INR n - 1 / 2) * s) + sin (s / 2)).
Proof.
  induction n as [|n IH].
  - simpl. replace ((0 - 1 / 2) * s) with (- (s / 2)) by field.
    rewrite sin_neg. unfold sum_list. simpl. ring.
  - rewrite seq_S, map_app. cbn [map Nat.add].
    rewrite sum_list_app, Rmult_plus_distr_l, IH, S_INR.
    replace ((INR n + 1 - 1 / 2) * s) with (INR n * s + s / 2) by field.
    replace ((INR n - 1 / 2) * s) with (INR n * s - s / 2) by field.
    rewrite Rplus_0_r, sin_plus, sin_minus. ring.
Qed.

Lemma sum_sin_equally_spaced (r s : float) (n : nat) :
  2 * sin (s / 2)
  * sum_list (map (fun j => r * sin (INR j * s + 0)) (seq 0 n))
  = r * (cos (s / 2) - cos ((INR n - 1 / 2) * s)).
Proof.
  induction n as [|n IH].
  - simpl. replace ((0 - 1 / 2) * s) with (- (s / 2)) by field.
    rewrite cos_neg. unfold sum_list. simpl. ring.
  - rewrite seq_S, map_app. cbn [map Nat.add].
    rewrite sum_list_app, Rmult_plus_distr_l, IH, S_INR.
    replace ((INR n + 1 - 1 / 2) * s) with (INR n * s + s / 2) by field.
    replace ((INR n - 1 / 2) * s) with (INR n * s - s / 2) by field.
    rewrite Rplus_0_r, cos_plus, cos_minus. ring.
Qed.

(** X17.  For a count [k >= 2] the centres are balanced: their coordinates sum to
    zero, so their centroid is the origin. *)
Theorem circle_placement_balanced (r : float) (k : Z) :
  (2 <= k)%Z ->
  exists pts,
    roller_centres r k = Some pts
    /\ sum_list (map fst pts) = 0
    /\ sum_list (map snd pts) = 0.
Proof.
  intros Hk. eexists.
  split; [apply roller_centres_points; lia|].
  rewrite !map_map. cbn [fst snd].
  set (s := (2 * PI - 0) / IZR k). set (n := Z.to_nat k).
  assert (Hk' : 2 <= IZR k) by now apply IZR_le.
  pose proof PI_RGT_0 as Hpi.
  assert (Hn : INR n = IZR k).
  { unfold n. rewrite INR_IZR_INZ, Z2Nat.id by lia. reflexivity. }
  assert (Hs2 : 0 < s / 2 < PI).
  { unfold s. replace ((2 * PI - 0) / IZR k / 2) with (PI / IZR k)
      by (field; lra).
    split; [apply Rdiv_lt_0_compat; lra|].
    apply (Rmult_lt_reg_r (IZR k)); [lra|].
    unfold Rdiv. rewrite Rmult_assoc, Rinv_l by lra. nra. }
  assert (Hsin : 0 < sin (s / 2)) by (apply sin_gt_0; lra).
  assert (Hturn : (INR n - 1 / 2) * s = - (s / 2) + 2 * PI).
  { rewrite Hn. unfold s. field. lra. }
  pose proof (sum_cos_equally_spaced r s n) as Hc.
  pose proof (sum_sin_equally_spaced r s n) as Hsn.
  rewrite Hturn, sin_turn, sin_neg in Hc.
  rewrite Hturn, cos_turn, cos_neg in Hsn.
  split; nra.
Qed.

Lemma circle_placement_balanced_witness :
  (2 <= 4)%Z /\
  exists pts,
    roller_centres 20 4 = Some pts
    /\ sum_list (map fst pts) = 0
    /\ sum_list (map snd pts) = 0.
Proof.
  split; [lia | apply circle_placement_balanced; lia].
Defined.

(** ** The point table *)

Lemma fold_left_append {A B : Type} (g : A -> B) (l : list A) (acc : list B) :
  fold_left (fun out v => out ++ [g v]) l acc = acc ++ map g l.
Proof.
  revert acc. induction l as [|a l IH]; intros acc; simpl.
  - now rewrite app_nil_r.
  - now rewrite IH, <- app_assoc.
Qed.

Lemma csv_lines_rows (fmt6 : float -> string) (x y : list float) :
  csv_lines fmt6 x y
  = "x_mm,y_mm"%string
    :: map (fun xy => csv_row fmt6 (fst xy) (snd xy)) (combine x y).
Proof.
  unfold csv_lines. now rewrite fold_left_append.
Qed.

Lemma nth_combine_lt {A B : Type} (l : list A) (m : list B) (i : nat)
  (d : A) (e : B) :
  (i < List.length l)%nat -> (i < List.length m)%nat ->
  nth i (combine l m) (d, e) = (nth i l d, nth i m e).
Proof.
  revert m i. induction l as [|a l IH]; intros [|b m] [|i] Hl Hm;
    simpl in *; try lia; [reflexivity|].
  apply IH; lia.
Qed.

(** X18.  The table has the header line and then one row for each pair of
    coordinates, in order; when the arrays differ in length the rows stop
    with the shorter one. *)
Theorem csv_points_rows (fmt6 : float -> string) (x y : list float) :
  csv_points fmt6 x y = String.concat newline (csv_lines fmt6 x y)
  /\ List.length (csv_lines fmt6 x y)
     = S (Nat.min (List.length x) (List.length y))
  /\ nth 0 (csv_lines fmt6 x y) EmptyString = "x_mm,y_mm"%string
  /\ forall i, (i < Nat.min (List.length x) (List.length y))%nat ->
       nth (S i) (csv_lines fmt6 x y) EmptyString
       = (fmt6 (nth i x 0) ++ "," ++ fmt6 (nth i y 0))%string.
Proof.
  split; [reflexivity|]. rewrite csv_lines_rows.
  split; [cbn [List.length]; now rewrite length_map, length_combine|].
  split; [reflexivity|].
  intros i Hi. cbn [nth].
  rewrite (nth_map_lt _ _ _ (0, 0)) by (rewrite length_combine; lia).
  rewrite nth_combine_lt by lia. reflexivity.
Qed.

(** X19.  The table of the first disc: whenever the disc is computed, the table
    has exactly [samples + 1] lines. *)
Theorem csv_of_disc1_length (fmt6 : float -> string) (p : Params.t) :
  (0 <= Params.samples p)%Z ->
  Params.E p * IZR (Params.N p) <> 0 ->
  exists x y,
    disc1 p = Some (x, y)
    /\ List.length (csv_lines fmt6 x y) = S (Z.to_nat (Params.samples p)).
Proof.
  intros Hs HEN. unfold disc1, sweep.
  destruct (linspace 0 _ (Params.samples p) true) as [t|] eqn:Ht.
  - apply linspace_length in Ht. unfold bind at 1.
    rewrite cycloid_profile_xy_samples, (py_div_some _ _ HEN). unfold bind.
    do 2 eexists. split; [reflexivity|].
    rewrite csv_lines_rows. cbn [List.length].
    rewrite length_map, length_combine, !length_map, Ht. lia.
  - apply linspace_none_iff in Ht. lia.
Qed.

Lemma csv_of_disc1_length_witness :
  let p := Params.mk 20 3 1.1 10 10 4 8 0.2 false 180 1200 9e-4 in
  (0 <= Params.samples p)%Z /\
  Params.E p * IZR (Params.N p) <> 0 /\
  exists x y,
    disc1 p = Some (x, y)
    /\ List.length (csv_lines (fun _ => "?"%string) x y)
       = S (Z.to_nat (Params.samples p)).
Proof.
  cbv zeta.
  split; [cbn [Params.samples]; lia|].
  split; [cbn [Params.E Params.N]; lra|].
  apply csv_of_disc1_length;
    [cbn [Params.samples]; lia | cbn [Params.E Params.N]; lra].
Defined.

(** ** The drawn circles *)

Lemma drawn_angles :
  linspace 0 (2 * PI) 120 true
  = Some (map (fun j => INR j * ((2 * PI - 0) / IZR (120 - 1)) + 0)
              (seq 0 120)).
Proof.
  rewrite linspace_closed by lia. reflexivity.
Qed.

(** X21.  A drawn circle is a closed polygon of 120 points on the circle of
    radius |r| around its centre: it starts and ends at the point
    [(cx + r, cy)]. *)
Theorem outline_closed_circle (r : float) (c : float * float) :
  exists th,
    linspace 0 (2 * PI) 120 true = Some th
    /\ List.length (fst (outline th r c)) = 120%nat
    /\ List.length (snd (outline th r c)) = 120%nat
    /\ nth 0 (fst (outline th r c)) 0 = fst c + r
    /\ nth 0 (snd (outline th r c)) 0 = snd c
    /\ last (fst (outline th r c)) 0 = fst c + r
    /\ last (snd (outline th r c)) 0 = snd c
    /\ forall i, (i < 120)%nat ->
         (nth i (fst (outline th r c)) 0 - fst c)
         * (nth i (fst (outline th r c)) 0 - fst c)
         + (nth i (snd (outline th r c)) 0 - snd c)
           * (nth i (snd (outline th r c)) 0 - snd c)
         = r * r.
Proof.
  eexists. split; [apply drawn_angles|].
  unfold outline. cbn [fst snd]. rewrite !map_map.
  set (f := fun j => INR j * ((2 * PI - 0) / IZR (120 - 1)) + 0).
  assert (H0 : f 0%nat = 0) by (unfold f; simpl INR; ring).
  assert (Hlast : f 119%nat = 2 * PI).
  { unfold f. rewrite INR_IZR_INZ. simpl Z.of_nat. simpl Z.sub. field. }
  assert (Hseq : seq 0 120 = seq 0 119 ++ [119%nat]) by apply (seq_S 119 0).
  split; [now rewrite length_map, length_seq|].
  split; [now rewrite length_map, length_seq|].
  split; [rewrite nth_map_seq by lia; fold (f 0%nat); rewrite H0, cos_0; ring|].
  split; [rewrite nth_map_seq by lia; fold (f 0%nat); rewrite H0, sin_0; ring|].
  split.
  { rewrite Hseq, map_app. cbn [map]. rewrite last_last.
    fold (f 119%nat). rewrite Hlast, cos_2PI. ring. }
  split.
  { rewrite Hseq, map_app. cbn [map]. rewrite last_last.
    fold (f 119%nat). rewrite Hlast, sin_2PI. ring. }
  intros i Hi. rewrite !nth_map_seq by lia.
  fold (f i). set (a := f i).
  replace (r * r) with (r * r * (Rsqr (sin a) + Rsqr (cos a)))
    by (rewrite sin2_cos2; ring).
  unfold Rsqr. ring.
Qed.

(** X22.  The page draws one circle for each roller centre and one for each
    output-hole centre; drawing fails exactly on a negative roller count or
    a negative output pin count. *)
Theorem outlines_counts (p : Params.t) :
  (outlines p = None
   <-> (Params.N p < 0)%Z \/ (Params.out_pin_count p < 0)%Z)
  /\ forall rollers holes, outlines p = Some (rollers, holes) ->
       List.length rollers = Z.to_nat (Params.N p)
       /\ List.length holes = Z.to_nat (Params.out_pin_count p).
Proof.
  unfold outlines, roller_centres, output_hole_centres.
  rewrite drawn_angles.
  pose proof (linspace_none_iff 0 (2 * PI) (Params.N p) false) as HN.
  pose proof (linspace_none_iff 0 (2 * PI) (Params.out_pin_count p) false)
    as HC.
  destruct (linspace 0 (2 * PI) (Params.N p) false) as [a1|] eqn:H1;
    destruct (linspace 0 (2 * PI) (Params.out_pin_count p) false)
      as [a2|] eqn:H2; unfold bind.
  - split.
    + split; [discriminate|].
      intros [H|H]; [apply HN in H | apply HC in H]; congruence.
    + apply linspace_length in H1, H2.
      intros rollers holes [= <- <-].
      now rewrite !length_map, !length_combine, !length_map, H1, H2,
        !Nat.min_id.
  - split; [|discriminate].
    split; [intros _; right; now apply HC | reflexivity].
  - split; [|discriminate].
    split; [intros _; left; now apply HN | reflexivity].
  - split; [|discriminate].
    split; [intros _; left; now apply HN | reflexivity].
Qed.
